(** * webhook_helper: signature check and event dispatch

    A shallow embedding of [webhook-app/webhook_helper.py]:
    [check_signature] (HMAC-SHA1 verification of the X-Hub-Signature
    header) and [listen] / [process] (the event registry and its
    dispatcher), together with the parts of Python's [hashlib] and [hmac]
    modules that [check_signature] calls. *)

From Stdlib Require Import NArith Strings.Byte Ascii String List Lia.
From stdpp Require Import base strings list gmap.
Import ListNotations.

#[local] Set Warnings "-register-all".

(** ** hashlib.sha1

    SHA-1 as in FIPS 180-4.  A 32-bit word is an [N] below [2^32], with the
    wrap-around of every operation written out. *)

Module Sha1.
Local Open Scope N_scope.

Definition w32 (x : N) : N := x mod 2 ^ 32.
Definition add32 (x y : N) : N := w32 (x + y).
Definition not32 (x : N) : N := N.lxor (w32 x) 0xFFFFFFFF.
Definition rotl (n x : N) : N :=
  w32 (N.lor (N.shiftl x n) (N.shiftr (w32 x) (32 - n))).

(** The round function and constant of round [t] (0 <= t < 80). *)
Definition f (t : nat) (b c d : N) : N :=
  if (t <? 20)%nat then N.lor (N.land b c) (N.land (not32 b) d)
  else if (t <? 40)%nat then N.lxor (N.lxor b c) d
  else if (t <? 60)%nat
       then N.lor (N.lor (N.land b c) (N.land b d)) (N.land c d)
  else N.lxor (N.lxor b c) d.

Definition K (t : nat) : N :=
  if (t <? 20)%nat then 0x5A827999
  else if (t <? 40)%nat then 0x6ED9EBA1
  else if (t <? 60)%nat then 0x8F1BBCDC
  else 0xCA62C1D6.

(** The five chaining words. *)
Record state := State { h0 : N; h1 : N; h2 : N; h3 : N; h4 : N }.

Definition init : state :=
  State 0x67452301 0xEFCDAB89 0x98BADCFE 0x10325476 0xC3D2E1F0.

Definition round (t : nat) (wt : N) (s : state) : state :=
  let temp :=
    add32 (add32 (add32 (add32 (rotl 5 (h0 s)) (f t (h1 s) (h2 s) (h3 s)))
                        (h4 s)) (K t)) wt in
  State temp (h0 s) (rotl 30 (h1 s)) (h2 s) (h3 s).

(** [rounds t n win s] runs rounds [t .. t+n-1].  [win] is the sliding
    window [W_t .. W_(t+15)] of the message schedule; the next word is
    [W_(t+16) = rotl 1 (W_(t+13) xor W_(t+8) xor W_(t+2) xor W_t)]. *)
Fixpoint rounds (t n : nat) (win : list N) (s : state) : state :=
  match n with
  | O => s
  | S n' =>
      let wt := nth 0 win 0 in
      let next :=
        rotl 1 (N.lxor (N.lxor (N.lxor (nth 13 win 0) (nth 8 win 0))
                               (nth 2 win 0)) wt) in
      rounds (S t) n' (tl win ++ [next]) (round t wt s)
  end.

(** Big-endian 32-bit words of a byte sequence (4 bytes each). *)
Fixpoint words (bs : list N) (n : nat) : list N :=
  match n with
  | O => []
  | S n' =>
      match bs with
      | b0 :: b1 :: b2 :: b3 :: rest =>
          (b0 * 2 ^ 24 + b1 * 2 ^ 16 + b2 * 2 ^ 8 + b3) :: words rest n'
      | _ => []
      end
  end.

Definition compress (s : state) (block : list N) : state :=
  let r := rounds 0 80 (words block 16) s in
  State (add32 (h0 s) (h0 r)) (add32 (h1 s) (h1 r)) (add32 (h2 s) (h2 r))
        (add32 (h3 s) (h3 r)) (add32 (h4 s) (h4 r)).

(** Big-endian bytes of the low [8 * n] bits of [x]. *)
Fixpoint be_bytes (n : nat) (x : N) : list N :=
  match n with
  | O => []
  | S n' => (N.shiftr x (8 * N.of_nat n')) mod 256 :: be_bytes n' x
  end.

(** Padding: a 1 bit, zeros up to 56 mod 64, the bit length on 8 bytes. *)
Definition pad (msg : list N) : list N :=
  let len := N.of_nat (length msg) in
  let zeros := N.to_nat ((119 - len mod 64) mod 64) in
  msg ++ [0x80] ++ repeat 0 zeros ++ be_bytes 8 (8 * len).

Fixpoint blocks (nblocks : nat) (bs : list N) (s : state) : state :=
  match nblocks with
  | O => s
  | S n' => blocks n' (skipn 64 bs) (compress s (firstn 64 bs))
  end.

Definition byte_of_N (x : N) : byte :=
  match Byte.of_N (x mod 256) with
  | Some b => b
  | None => x00
  end.

Definition digest_bytes (s : state) : list byte :=
  map byte_of_N
      (be_bytes 4 (h0 s) ++ be_bytes 4 (h1 s) ++ be_bytes 4 (h2 s)
       ++ be_bytes 4 (h3 s) ++ be_bytes 4 (h4 s)).

(** [hashlib.sha1(msg).digest()] *)
Definition sha1 (msg : list byte) : list byte :=
  let padded := pad (map Byte.to_N msg) in
  digest_bytes (blocks (length padded / 64) padded init).

End Sha1.

(** ** hmac.new(key, msg, digestmod=hashlib.sha1)

    RFC 2104 with a 64-byte block: a key longer than a block is hashed
    first, then padded with zero bytes. *)

Module Hmac.

Definition block_size : nat := 64.

Definition xor_byte (p : N) (b : byte) : byte :=
  Sha1.byte_of_N (N.lxor p (Byte.to_N b)).

Definition block_key (key : list byte) : list byte :=
  let k := if (block_size <? length key)%nat then Sha1.sha1 key else key in
  k ++ repeat x00 (block_size - length k).

(** [hmac.new(key, msg, hashlib.sha1).digest()] *)
Definition digest (key msg : list byte) : list byte :=
  let k := block_key key in
  Sha1.sha1 (map (xor_byte 0x5c) k
             ++ Sha1.sha1 (map (xor_byte 0x36) k ++ msg)).

(** Lowercase hexadecimal, two characters per byte, as [hexdigest()]. *)
Definition hex_digit (n : N) : ascii :=
  if (n <? 10)%N then ascii_of_N (48 + n) else ascii_of_N (87 + n).

Fixpoint hex (bs : list byte) : string :=
  match bs with
  | [] => EmptyString
  | b :: rest =>
      String (hex_digit (Byte.to_N b / 16))
             (String (hex_digit (Byte.to_N b mod 16)) (hex rest))
  end.

(** [hmac.new(key, msg, hashlib.sha1).hexdigest()] *)
Definition hexdigest (key msg : list byte) : string :=
  hex (digest key msg).

End Hmac.

Arguments Sha1.sha1 : simpl never.
Arguments Hmac.digest : simpl never.
Arguments Hmac.hexdigest : simpl never.

(** ** Python values and outcomes *)

(** The JSON-like fragment of Python objects: what [request.get_json()]
    yields and what a hook function returns.  [PyNone] is Python's [None];
    a dict is its list of items in insertion order. *)
Inductive PyValue :=
| PyNone
| PyBool (b : bool)
| PyInt (n : Z)
| PyStr (s : string)
| PyList (items : list PyValue)
| PyDict (items : list (string * PyValue)).

(** A call either returns a value or raises. *)
Inductive Outcome (E A : Type) :=
| Return (a : A)
| Raise (e : E).
Arguments Return {E A} a.
Arguments Raise {E A} e.

(** ** str.split and hmac.compare_digest *)

(** [s.split(sep)] for a one-character separator: the pieces between the
    occurrences of [sep], so one more piece than there are occurrences. *)
Fixpoint split (sep : ascii) (s : string) : list string :=
  match s with
  | EmptyString => [EmptyString]
  | String c rest =>
      if Ascii.eqb c sep then EmptyString :: split sep rest
      else match split sep rest with
           | part :: parts => String c part :: parts
           | [] => [String c EmptyString]
           end
  end.

Definition codes (s : string) : list N :=
  map N_of_ascii (list_ascii_of_string s).

(** A [str] is a sequence of the code points below 256; those below 128 are
    the ASCII ones. *)
Definition is_ascii (s : string) : bool :=
  forallb (fun n => (n <? 128)%N) (codes s).

(** The comparison loop of [hmac.compare_digest]: it runs over the whole
    length of [b] and accumulates the differences, with no early exit. *)
Definition tscmp (a b : list N) : bool :=
  let same := Nat.eqb (length a) (length b) in
  let left := if same then a else b in
  let result := if same then 0%N else 1%N in
  N.eqb (fold_left (fun r p => N.lor r (N.lxor (fst p) (snd p)))
                   (combine left b) result) 0.

(** The exceptions [check_signature] raises, by the place that raises them.
    The first four are [ValueError]s. *)
Inductive Exception :=
| NoHeader
    (* line 31: ValueError('No X-Hub-Signature header.') *)
| UnpackError (nparts : nat)
    (* line 33: unpacking a list of [nparts] values, not 2, into two names *)
| UnsupportedDigest (algorithm : string)
    (* line 36: ValueError('Unsupported digest algorithm {}.') *)
| DigestMismatch
    (* line 42: ValueError('Body digest did not match signature digest') *)
| NonAsciiTypeError.
    (* line 41: TypeError of hmac.compare_digest on a non-ASCII str *)

(** [hmac.compare_digest(a, b)] on two [str]: both must be ASCII. *)
Definition compare_digest (a b : string) : Outcome Exception bool :=
  if is_ascii a && is_ascii b then Return (tscmp (codes a) (codes b))
  else Raise NonAsciiTypeError.

(** ** check_signature *)

(** Lines 35-44: what [check_signature] does with the two unpacked parts. *)
Definition check_digest (secret : list byte) (algorithm signature_digest : string)
    (request_body : list byte) : Outcome Exception bool :=
  if negb (String.eqb algorithm "sha1") then Raise (UnsupportedDigest algorithm)
  else
    let body_digest := Hmac.hexdigest secret request_body in
    match compare_digest body_digest signature_digest with
    | Raise e => Raise e
    | Return false => Raise DigestMismatch
    | Return true => Return true
    end.

(** Lines 29-44.  An absent header is [None]; [not header_signature] holds
    for [None] and for the empty string. *)
Definition check_signature (secret : list byte) (header_signature : option string)
    (request_body : list byte) : Outcome Exception bool :=
  match header_signature with
  | None => Raise NoHeader
  | Some EmptyString => Raise NoHeader
  | Some header =>
      match split "=" header with
      | [algorithm; signature_digest] =>
          check_digest secret algorithm signature_digest request_body
      | parts => Raise (UnpackError (length parts))
      end
  end.

(** ** The event map, listen and process *)

Section Dispatcher.

(** [World] is the part of the process state that hook functions read and
    write, [Exn] the exceptions they raise.  A hook function takes the
    request's JSON data; it cannot reach the event map, which is not part of
    [World]. *)
Context {World Exn : Type}.

Definition Handler : Type := PyValue -> World -> World * Outcome Exn PyValue.

Record Globals := {
  _web_hook_event_map : gmap string (list Handler);
  logged : list string;
  world : World
}.

(** [m[key]] on a [defaultdict(list)]: a missing key is first bound to a new
    empty list. *)
Definition defaultdict_getitem (m : gmap string (list Handler)) (key : string)
  : list Handler * gmap string (list Handler) :=
  match m !! key with
  | Some functions => (functions, m)
  | None => ([], <[key := []]> m)
  end.

(** [listen(event)(f)]: append [f] to the list under [event]; the decorator
    gives [f] back. *)
Definition listen (event : string) (f : Handler) (g : Globals)
  : Globals * Handler :=
  let '(functions, m) := defaultdict_getitem (_web_hook_event_map g) event in
  ({| _web_hook_event_map := <[event := functions ++ [f]]> m;
      logged := logged g;
      world := world g |}, f).

Record Request := {
  headers : gmap string string;
  get_json : PyValue
}.

(** Lines 82-85: the loop over [functions].  It yields the functions it
    called, in call order, the world they leave, and [Some] outcome when the
    loop was left by [return] or by an exception, [None] when it ran to its
    end. *)
Fixpoint call_functions (functions : list Handler) (data : PyValue) (w : World)
  : list Handler * World * option (Outcome Exn PyValue) :=
  match functions with
  | [] => ([], w, None)
  | function :: rest =>
      let '(w1, result) := function data w in
      match result with
      | Raise e => ([function], w1, Some (Raise e))
      | Return PyNone =>
          let '(called, w2, r) := call_functions rest data w1 in
          (function :: called, w2, r)
      | Return v => ([function], w1, Some (Return v))
      end
  end.

Record Run := {
  globals : Globals;
  called : list Handler;
  outcome : Outcome Exn PyValue
}.

(** Lines 73-87. *)
Definition process (request : Request) (g : Globals) : Run :=
  let event := default "ping"%string (headers request !! "X-GitHub-Event"%string) in
  let '(functions, m) := defaultdict_getitem (_web_hook_event_map g) event in
  let data := get_json request in
  let log := logged g ++ [("Event: " +:+ event)%string] in
  let '(fs, w, r) := call_functions functions data (world g) in
  {| globals := {| _web_hook_event_map := m; logged := log; world := w |};
     called := fs;
     outcome := match r with
                | Some o => o
                | None => Return (PyDict [("status"%string, PyStr "OK")])
                end |}.

End Dispatcher.

Arguments Handler : clear implicits.
Arguments Globals : clear implicits.
Arguments Run : clear implicits.

(** ** Vocabulary of the properties *)

Definition bytes_of (s : string) : list byte := list_byte_of_string s.

(** The scenario of the testable properties: secret [b"topsecret"] and
    body [b'{"zen":"test"}']. *)
Definition topsecret : list byte := bytes_of "topsecret".
Definition zen : list byte :=
  [x7b; x22; x7a; x65; x6e; x22; x3a; x22; x74; x65; x73; x74; x22; x7d].

(** Every character of [s] satisfies [P]. *)
Fixpoint all_chars (P : ascii -> bool) (s : string) : bool :=
  match s with
  | EmptyString => true
  | String c rest => P c && all_chars P rest
  end.

(** Number of occurrences of [c] in [s]. *)
Fixpoint count_char (c : ascii) (s : string) : nat :=
  match s with
  | EmptyString => 0
  | String x rest => (if Ascii.eqb x c then 1 else 0) + count_char c rest
  end.

(** Splitting on the first separator only, as the specification words the
    parsing of the header: the text before the first [sep] and all the text
    after it; [None] when there is no [sep]. *)
Fixpoint split_first (sep : ascii) (s : string) : option (string * string) :=
  match s with
  | EmptyString => None
  | String c rest =>
      if Ascii.eqb c sep then Some (EmptyString, rest)
      else match split_first sep rest with
           | Some (before, after) => Some (String c before, after)
           | None => None
           end
  end.

Definition in_range (lo hi : N) (c : ascii) : bool :=
  (lo <=? N_of_ascii c)%N && (N_of_ascii c <=? hi)%N.

(** [0-9a-f], the alphabet of [hexdigest()], and [0-9a-fA-F]. *)
Definition is_lower_hex (c : ascii) : bool :=
  in_range 48 57 c || in_range 97 102 c.
Definition is_hex_char (c : ascii) : bool :=
  is_lower_hex c || in_range 65 70 c.

(** ASCII case folding ([str.lower] and [str.upper] on ASCII text). *)
Definition lower_char (c : ascii) : ascii :=
  if in_range 65 90 c then ascii_of_N (N_of_ascii c + 32) else c.
Definition upper_char (c : ascii) : ascii :=
  if in_range 97 122 c then ascii_of_N (N_of_ascii c - 32) else c.

Fixpoint map_chars (g : ascii -> ascii) (s : string) : string :=
  match s with
  | EmptyString => EmptyString
  | String c rest => String (g c) (map_chars g rest)
  end.

Definition lower : string -> string := map_chars lower_char.
Definition upper : string -> string := map_chars upper_char.

(** [s] with the character at index [i] replaced by [c]. *)
Fixpoint set_char (i : nat) (c : ascii) (s : string) : string :=
  match s, i with
  | EmptyString, _ => EmptyString
  | String _ rest, O => String c rest
  | String x rest, S i' => String x (set_char i' c rest)
  end.

Section DispatcherVocabulary.
Context {World Exn : Type}.

Definition is_None_return (r : Outcome Exn PyValue) : bool :=
  match r with
  | Return PyNone => true
  | _ => false
  end.

(** Every function of [functions], called in turn on [data] from world [w],
    returns [None]. *)
Fixpoint all_return_None (functions : list (Handler World Exn))
    (data : PyValue) (w : World) : bool :=
  match functions with
  | [] => true
  | function :: rest =>
      let '(w1, r) := function data w in
      is_None_return r && all_return_None rest data w1
  end.

(** The world left by calling every function of [functions] in turn. *)
Definition world_after (functions : list (Handler World Exn))
    (data : PyValue) (w : World) : World :=
  fold_left (fun w0 function => fst (function data w0)) functions w.

(** The event name [process] reads from the request. *)
Definition event_of (request : Request) : string :=
  default "ping"%string (headers request !! "X-GitHub-Event"%string).

(** What [m[key]] reads on the [defaultdict]. *)
Definition functions_of (m : gmap string (list (Handler World Exn)))
    (key : string) : list (Handler World Exn) :=
  default [] (m !! key).

(** The decorator [@listen(event)] applied to each function of [functions]
    in turn, as a module that defines several hook functions does at import
    time. *)
Definition listen_all (event : string) (functions : list (Handler World Exn))
    (g : Globals World Exn) : Globals World Exn :=
  fold_left (fun g0 function => fst (listen event function g0)) functions g.

(** The globals after [process] has handled each request of [requests] in
    turn, whatever each call returned or raised. *)
Definition serve (requests : list Request) (g : Globals World Exn)
  : Globals World Exn :=
  fold_left (fun g0 request => globals (process request g0)) requests g.

End DispatcherVocabulary.

(** The default acknowledgement [{'status': 'OK'}]. *)
Definition status_OK : PyValue := PyDict [("status"%string, PyStr "OK")].

(** The dispatch scenario of the testable properties: [h1], [h2], [h3]
    registered for ["push"] in that order, [h1] returning [None] and [h2]
    returning [{"x": 1}].  The world counts the calls: each function adds
    its own weight to it. *)
Module Scenario.

Definition h1 : Handler nat unit := fun _ w => (w + 1, Return PyNone).
Definition h2 : Handler nat unit :=
  fun _ w => (w + 10, Return (PyDict [("x"%string, PyInt 1)])).
Definition h3 : Handler nat unit := fun _ w => (w + 100, Return (PyStr "h3")).

Definition nothing : Globals nat unit :=
  {| _web_hook_event_map := ∅; logged := []; world := 0 |}.

(** The decorators [@listen("push")] on [h1], [h2], [h3], and
    [@listen("ping")] on [h1], run at import time. *)
Definition registered : Globals nat unit :=
  fst (listen "ping" h1
    (fst (listen "push" h3
      (fst (listen "push" h2 (fst (listen "push" h1 nothing))))))).

Definition payload : PyValue := PyDict [("zen"%string, PyStr "test")].

Definition request_for (event : string) : Request :=
  {| headers := {["X-GitHub-Event"%string := event]}; get_json := payload |}.

Definition request_without_event : Request :=
  {| headers := ∅; get_json := payload |}.

End Scenario.

(** A hook function that raises, registered for ["push"] between [h1] and
    [h3]. *)
Module Raising.

Definition boom : Handler nat unit := fun _ w => (w + 1000, Raise tt).

Definition registered : Globals nat unit :=
  listen_all "push" [Scenario.h1; boom; Scenario.h3] Scenario.nothing.

End Raising.

(** * Properties *)

(** ** The hash functions on the published test vectors *)

Example sha1_abc :
  Hmac.hex (Sha1.sha1 (bytes_of "abc"))
  = "a9993e364706816aba3e25717850c26c9cd0d89d"%string.
Proof. vm_compute. reflexivity. Qed.

Example sha1_empty :
  Hmac.hex (Sha1.sha1 []) = "da39a3ee5e6b4b0d3255bfef95601890afd80709"%string.
Proof. vm_compute. reflexivity. Qed.

(** Padding at the block boundaries: 55, 56, 64 and 119 bytes. *)
Example sha1_boundaries :
  map (fun n => Hmac.hex (Sha1.sha1 (repeat x61 n))) [55; 56; 64; 119]
  = ["c1c8bbdc22796e28c0e15163d20899b65621d65a";
     "c2db330f6083854c99d4b5bfb6e8f29f201be699";
     "0098ba824b5c16427bd7a1122a5a442a25ec644d";
     "ee971065aaa017e0632a8ca6c77bb3bf8b1dfc56"]%string.
Proof. vm_compute. reflexivity. Qed.

(** RFC 2202, test cases 2 and 6 (the latter with an 80-byte key). *)
Example hmac_rfc2202_2 :
  Hmac.hexdigest (bytes_of "Jefe") (bytes_of "what do ya want for nothing?")
  = "effcdf6ae5eb2fa2d27416d5f184df9c259a7c79"%string.
Proof. vm_compute. reflexivity. Qed.

Example hmac_rfc2202_6 :
  Hmac.hexdigest (repeat xaa 80)
    (bytes_of "Test Using Larger Than Block-Size Key - Hash Key First")
  = "aa4ae5e15272d00e95705637ce8a3b55ed402112"%string.
Proof. vm_compute. reflexivity. Qed.

Example hmac_topsecret_zen :
  Hmac.hexdigest topsecret zen
  = "47d37ea13f2a17fdad702f6a5b644a06ae077300"%string.
Proof. vm_compute. reflexivity. Qed.

(** ** str.split *)

Lemma all_chars_impl (P Q : ascii -> bool) (s : string) :
  (forall c, P c = true -> Q c = true) ->
  all_chars P s = true -> all_chars Q s = true.
Proof.
  intros HPQ. induction s as [|c s IH]; simpl; [done|].
  rewrite !andb_true_iff. intros [Hc Hs]. auto.
Qed.

Lemma count_char_zero (sep : ascii) (s : string) :
  count_char sep s = 0 <-> all_chars (fun c => negb (Ascii.eqb c sep)) s = true.
Proof.
  induction s as [|c s IH]; simpl; [done|].
  destruct (Ascii.eqb c sep); simpl; [split; discriminate | exact IH].
Qed.

Lemma split_length (sep : ascii) (s : string) :
  length (split sep s) = S (count_char sep s).
Proof.
  induction s as [|c s IH]; simpl; [done|].
  destruct (Ascii.eqb c sep); simpl; [by rewrite IH|].
  destruct (split sep s) as [|part parts]; simpl in *; lia.
Qed.

Lemma split_no_sep (sep : ascii) (s : string) :
  count_char sep s = 0 -> split sep s = [s].
Proof.
  induction s as [|c s IH]; simpl; [done|].
  destruct (Ascii.eqb c sep); simpl; [discriminate|].
  intros H. by rewrite IH.
Qed.

Lemma split_first_None (sep : ascii) (s : string) :
  split_first sep s = None <-> count_char sep s = 0.
Proof.
  induction s as [|c s IH]; simpl; [done|].
  destruct (Ascii.eqb c sep); simpl; [split; discriminate|].
  destruct (split_first sep s) as [[before after]|]; [|exact IH].
  split; [discriminate|]. intros H. apply IH in H. discriminate.
Qed.

Lemma split_first_Some (sep : ascii) (s before after : string) :
  split_first sep s = Some (before, after) ->
  s = (before +:+ String sep after)%string
  /\ count_char sep before = 0
  /\ count_char sep s = S (count_char sep after)
  /\ split sep s = before :: split sep after.
Proof.
  revert before. induction s as [|c s IH]; simpl; intros before; [done|].
  destruct (Ascii.eqb_spec c sep) as [->|Hne].
  - intros [= <- <-]. done.
  - destruct (split_first sep s) as [[b a]|]; [|done].
    intros [= <- <-]. destruct (IH b eq_refl) as (-> & Hb & Hc & Hs).
    simpl. rewrite (proj2 (Ascii.eqb_neq _ _) Hne). simpl.
    repeat split; try done.
    destruct (split sep (b +:+ String sep a)) as [|p ps]; [done|].
    by injection Hs as -> ->.
Qed.

Lemma split_app (sep : ascii) (before after : string) :
  count_char sep before = 0 ->
  split sep (before +:+ String sep after) = before :: split sep after.
Proof.
  induction before as [|c s IH]; simpl.
  - by rewrite Ascii.eqb_refl.
  - destruct (Ascii.eqb c sep); simpl; [discriminate|].
    intros H. by rewrite IH.
Qed.

(** ** hmac.compare_digest decides equality *)

Lemma tscmp_fold (l : list (N * N)) (r : N) :
  fold_left (fun r p => N.lor r (N.lxor (fst p) (snd p))) l r = 0%N
  <-> r = 0%N /\ Forall (fun p => fst p = snd p) l.
Proof.
  revert r. induction l as [|[x y] l IH]; simpl; intros r.
  - split; [intros ->; by split | by intros [-> _]].
  - rewrite IH, N.lor_eq_0_iff, Forall_cons. simpl. split.
    + intros [[-> Hxy] Hl]. apply N.lxor_eq in Hxy. done.
    + intros [-> [-> Hl]]. by rewrite N.lxor_nilpotent.
Qed.

Lemma combine_diagonal (a b : list N) :
  length a = length b ->
  Forall (fun p => fst p = snd p) (combine a b) <-> a = b.
Proof.
  revert b. induction a as [|x a IH]; intros [|y b]; simpl; try done.
  intros [= Hlen]. rewrite Forall_cons, (IH b Hlen). simpl.
  split; [by intros [-> ->] | by intros [= -> ->]].
Qed.

Lemma tscmp_spec (a b : list N) : tscmp a b = true <-> a = b.
Proof.
  unfold tscmp. rewrite N.eqb_eq, tscmp_fold.
  destruct (Nat.eqb_spec (length a) (length b)) as [Hlen|Hlen].
  - rewrite (combine_diagonal a b Hlen). by split; [intros [_ ?] | intros ?].
  - split; [by intros [? _] | intros ->; done].
Qed.

Lemma codes_inj (a b : string) : codes a = codes b -> a = b.
Proof.
  revert b. induction a as [|x a IH]; intros [|y b]; simpl; try done.
  unfold codes. simpl. intros [= Hxy Hab].
  f_equal; [|by apply IH].
  by rewrite <- (ascii_N_embedding x), <- (ascii_N_embedding y), Hxy.
Qed.

Lemma is_ascii_all_chars (s : string) :
  is_ascii s = all_chars (fun c => (N_of_ascii c <? 128)%N) s.
Proof.
  unfold is_ascii, codes. induction s as [|c s IH]; simpl; [done|].
  by rewrite IH.
Qed.

Lemma compare_digest_ascii (a b : string) :
  is_ascii a = true -> is_ascii b = true ->
  compare_digest a b = Return (String.eqb a b).
Proof.
  intros Ha Hb. unfold compare_digest. rewrite Ha, Hb. simpl. f_equal.
  destruct (String.eqb_spec a b) as [->|Hne].
  - by apply tscmp_spec.
  - apply not_true_is_false. intros H. apply tscmp_spec in H.
    by apply codes_inj in H.
Qed.

(** ** hexdigest: 40 lowercase hexadecimal characters *)

Lemma hex_lower_hex (bs : list byte) : all_chars is_lower_hex (Hmac.hex bs) = true.
Proof.
  induction bs as [|b bs IH]; simpl; [done|].
  rewrite IH, andb_true_r. by destruct b.
Qed.

Lemma hex_length (bs : list byte) : String.length (Hmac.hex bs) = 2 * length bs.
Proof. induction bs as [|b bs IH]; simpl; [done|]. rewrite IH. lia. Qed.

Lemma sha1_length (msg : list byte) : length (Sha1.sha1 msg) = 20.
Proof. unfold Sha1.sha1, Sha1.digest_bytes. by rewrite length_map. Qed.

Lemma hexdigest_length (key msg : list byte) :
  String.length (Hmac.hexdigest key msg) = 40.
Proof.
  unfold Hmac.hexdigest, Hmac.digest. by rewrite hex_length, sha1_length.
Qed.

Lemma lower_hex_is_hex (c : ascii) : is_lower_hex c = true -> is_hex_char c = true.
Proof. unfold is_hex_char. by intros ->. Qed.

Lemma hex_char_not_eq (c : ascii) :
  is_hex_char c = true -> negb (Ascii.eqb c "=") = true.
Proof. by destruct c as [[] [] [] [] [] [] [] []]. Qed.

Lemma hex_char_ascii (c : ascii) :
  is_hex_char c = true -> (N_of_ascii c <? 128)%N = true.
Proof. by destruct c as [[] [] [] [] [] [] [] []]. Qed.

Lemma lower_hex_fixed (c : ascii) : is_lower_hex c = true -> lower_char c = c.
Proof. by destruct c as [[] [] [] [] [] [] [] []]. Qed.

Lemma lower_char_hex (c : ascii) :
  is_lower_hex (lower_char c) = true -> is_hex_char c = true.
Proof. by destruct c as [[] [] [] [] [] [] [] []]. Qed.

Lemma hex_chars_no_sep (s : string) :
  all_chars is_hex_char s = true -> count_char "=" s = 0.
Proof.
  intros H. apply count_char_zero.
  revert H. apply all_chars_impl, hex_char_not_eq.
Qed.

Lemma hex_chars_ascii (s : string) :
  all_chars is_hex_char s = true -> is_ascii s = true.
Proof.
  intros H. rewrite is_ascii_all_chars.
  revert H. apply all_chars_impl, hex_char_ascii.
Qed.

Lemma hexdigest_hex_chars (key msg : list byte) :
  all_chars is_hex_char (Hmac.hexdigest key msg) = true.
Proof.
  apply (all_chars_impl is_lower_hex); [apply lower_hex_is_hex|].
  apply hex_lower_hex.
Qed.

Lemma hexdigest_lower (key msg : list byte) :
  lower (Hmac.hexdigest key msg) = Hmac.hexdigest key msg.
Proof.
  unfold Hmac.hexdigest. generalize (hex_lower_hex (Hmac.digest key msg)).
  generalize (Hmac.hex (Hmac.digest key msg)) as s.
  induction s as [|c s IH]; simpl; [done|].
  rewrite andb_true_iff. intros [Hc Hs].
  unfold lower in *. simpl. by rewrite lower_hex_fixed, IH.
Qed.

(** ** check_signature *)

Lemma check_signature_parts (secret body : list byte) (header : string) :
  header <> EmptyString ->
  check_signature secret (Some header) body =
    match split "=" header with
    | [algorithm; signature_digest] =>
        check_digest secret algorithm signature_digest body
    | parts => Raise (UnpackError (length parts))
    end.
Proof. by destruct header. Qed.

Lemma check_signature_one_separator (secret body : list byte)
    (algorithm signature_digest : string) :
  count_char "=" algorithm = 0 -> count_char "=" signature_digest = 0 ->
  check_signature secret (Some (algorithm +:+ String "=" signature_digest)) body
  = check_digest secret algorithm signature_digest body.
Proof.
  intros Ha Hd. rewrite check_signature_parts by by destruct algorithm.
  by rewrite (split_app _ _ _ Ha), (split_no_sep _ _ Hd).
Qed.

Lemma check_digest_sha1 (secret body : list byte) (signature_digest : string) :
  is_ascii signature_digest = true ->
  check_digest secret "sha1" signature_digest body =
    if String.eqb (Hmac.hexdigest secret body) signature_digest
    then Return true else Raise DigestMismatch.
Proof.
  intros Hd. unfold check_digest.
  change (negb (String.eqb "sha1" "sha1")) with false. cbv iota zeta.
  rewrite compare_digest_ascii;
    [reflexivity | apply hex_chars_ascii, hexdigest_hex_chars | exact Hd].
Qed.

(** A presented digest made of hexadecimal characters that is not the
    computed one is refused with the mismatch error. *)
Lemma check_signature_wrong_hex (secret body : list byte) (presented : string) :
  all_chars is_hex_char presented = true ->
  presented <> Hmac.hexdigest secret body ->
  check_signature secret (Some ("sha1=" +:+ presented)%string) body
  = Raise DigestMismatch.
Proof.
  intros Hhex Hne.
  change ("sha1=" +:+ presented)%string
    with ("sha1" +:+ String "=" presented)%string.
  rewrite check_signature_one_separator; [|done|by apply hex_chars_no_sep].
  rewrite check_digest_sha1 by by apply hex_chars_ascii.
  destruct (String.eqb_spec (Hmac.hexdigest secret body) presented); congruence.
Qed.

Lemma set_char_all_chars (P : ascii -> bool) (i : nat) (c : ascii) (s : string) :
  P c = true -> all_chars P s = true -> all_chars P (set_char i c s) = true.
Proof.
  intros Hc. revert i. induction s as [|x s IH]; intros [|i]; simpl; try done.
  - rewrite !andb_true_iff. by intros [_ ?].
  - rewrite !andb_true_iff. intros [? ?]. auto.
Qed.

Lemma set_char_changes (i : nat) (c : ascii) (s : string) :
  i < String.length s -> String.get i s <> Some c -> set_char i c s <> s.
Proof.
  revert i. induction s as [|x s IH]; intros [|i]; simpl; try lia.
  - intros _ Hx [= ->]. done.
  - intros Hi Hx [= Heq]. apply (IH i); [lia | done | done].
Qed.

Lemma lower_hex_chars (presented s : string) :
  all_chars is_lower_hex s = true -> lower presented = s ->
  all_chars is_hex_char presented = true.
Proof.
  intros Hs <-. revert Hs. unfold lower.
  induction presented as [|c p IH]; simpl; [done|].
  rewrite !andb_true_iff. intros [Hc Hp]. split; [by apply lower_char_hex | auto].
Qed.

Lemma upper_then_lower (s : string) :
  all_chars is_lower_hex s = true -> lower (upper s) = s.
Proof.
  unfold lower, upper. induction s as [|c s IH]; simpl; [done|].
  rewrite andb_true_iff. intros [Hc Hs]. rewrite (IH Hs). f_equal.
  revert Hc. by destruct c as [[] [] [] [] [] [] [] []].
Qed.

Lemma upper_changes_letters (s : string) :
  all_chars is_lower_hex s = true ->
  all_chars (in_range 48 57) s = false -> upper s <> s.
Proof.
  unfold upper. induction s as [|c s IH]; simpl; [done|].
  rewrite andb_true_iff, andb_false_iff. intros [Hc Hs] Hdigits [= Hhead Htail].
  destruct Hdigits as [Hletter|Hrest]; [|by apply IH].
  revert Hc Hletter Hhead. by destruct c as [[] [] [] [] [] [] [] []].
Qed.

(** The correct digest in uppercase is refused whenever it holds a letter. *)
Corollary check_signature_uppercase (secret body : list byte) :
  all_chars (in_range 48 57) (Hmac.hexdigest secret body) = false ->
  check_signature secret
    (Some ("sha1=" +:+ upper (Hmac.hexdigest secret body))%string) body
  = Raise DigestMismatch.
Proof.
  intros Hletter. pose proof (hex_lower_hex (Hmac.digest secret body)) as Hhex.
  fold (Hmac.hexdigest secret body) in Hhex.
  apply check_signature_wrong_hex.
  - apply (lower_hex_chars _ (Hmac.hexdigest secret body));
      [done | by apply upper_then_lower].
  - by apply upper_changes_letters.
Qed.

(** C1: for every secret and body, [check_signature] on the header
    ["sha1=" + hexdigest], the lowercase hexadecimal HMAC-SHA1 of the body
    under the secret, returns [True] and raises nothing. *)
Theorem check_signature_valid (secret body : list byte) :
  check_signature secret
    (Some ("sha1=" +:+ Hmac.hexdigest secret body)%string) body
  = Return true.
Proof.
  pose proof (hexdigest_hex_chars secret body) as Hhex.
  change ("sha1=" +:+ Hmac.hexdigest secret body)%string
    with ("sha1" +:+ String "=" (Hmac.hexdigest secret body))%string.
  rewrite check_signature_one_separator; [|done|by apply hex_chars_no_sep].
  rewrite check_digest_sha1 by by apply hex_chars_ascii.
  by rewrite String.eqb_refl.
Qed.

(** C2, as the code has it: for every secret, body and non-empty header, a
    header with no ['='] fails in the unpacking of the split (one part
    where two are expected); a header with exactly one ['='] is split there
    into algorithm and digest and goes on to the algorithm check and the
    digest comparison; a header with two or more ['='] fails in the
    unpacking as well (three or more parts), it is not split at the first
    ['=']. *)
Theorem check_signature_separators (secret body : list byte) (header : string) :
  header <> EmptyString ->
  (split_first "=" header = None ->
   check_signature secret (Some header) body = Raise (UnpackError 1))
  /\ (forall algorithm digest,
        split_first "=" header = Some (algorithm, digest) ->
        count_char "=" digest = 0 ->
        check_signature secret (Some header) body
        = check_digest secret algorithm digest body)
  /\ (forall algorithm digest,
        split_first "=" header = Some (algorithm, digest) ->
        count_char "=" digest <> 0 ->
        check_signature secret (Some header) body
        = Raise (UnpackError (2 + count_char "=" digest))).
Proof.
  intros Hne. rewrite check_signature_parts by done. repeat split.
  - intros H. apply split_first_None in H. by rewrite split_no_sep.
  - intros a d H Hd. apply split_first_Some in H as (_ & _ & _ & ->).
    by rewrite (split_no_sep _ _ Hd).
  - intros a d H Hd. apply split_first_Some in H as (_ & _ & _ & ->).
    pose proof (split_length "=" d) as Hlen.
    destruct (split "=" d) as [|p [|q ps]]; simpl in *; try lia.
    do 3 f_equal. lia.
Qed.

Lemma check_signature_separators_witness :
  check_signature topsecret (Some "sha1"%string) zen = Raise (UnpackError 1)
  /\ check_signature topsecret (Some "sha1=ab"%string) zen
     = check_digest topsecret "sha1" "ab" zen
  /\ check_signature topsecret (Some "sha1=ab=cd"%string) zen
     = Raise (UnpackError 3).
Proof.
  split; [|split].
  - exact (proj1 (check_signature_separators topsecret zen "sha1"
                    ltac:(discriminate)) eq_refl).
  - exact (proj1 (proj2 (check_signature_separators topsecret zen "sha1=ab"
                           ltac:(discriminate))) "sha1" "ab" eq_refl eq_refl)%string.
  - exact (proj2 (proj2 (check_signature_separators topsecret zen "sha1=ab=cd"
                           ltac:(discriminate))) "sha1" "ab=cd"
                 eq_refl ltac:(discriminate))%string.
Defined.

(** C2 as stated fails: ["sha1=ab=cd"] splits at its first ['='] into
    ["sha1"] and ["ab=cd"], yet [check_signature] does not go on to the
    digest comparison with these parts; it fails in the unpacking. *)
Lemma two_separators_not_split_at_first :
  split_first "=" "sha1=ab=cd" = Some ("sha1", "ab=cd")%string
  /\ check_signature topsecret (Some "sha1=ab=cd"%string) zen
     = Raise (UnpackError 3)
  /\ check_digest topsecret "sha1" "ab=cd" zen = Raise DigestMismatch
  /\ check_signature topsecret (Some "sha1=ab=cd"%string) zen
     <> check_digest topsecret "sha1" "ab=cd" zen.
Proof. repeat split; try (vm_compute; reflexivity). vm_compute. discriminate. Qed.

(** C6, as the code has it: for every secret and body, a header with exactly
    one ['='] whose part before it is any name other than ["sha1"] fails
    with the unsupported-algorithm error carrying that name, whatever the
    digest part is. *)
Theorem check_signature_unsupported (secret body : list byte)
    (header algorithm digest : string) :
  split_first "=" header = Some (algorithm, digest) ->
  count_char "=" digest = 0 ->
  algorithm <> "sha1"%string ->
  check_signature secret (Some header) body
  = Raise (UnsupportedDigest algorithm).
Proof.
  intros Hsplit Hd Halg.
  assert (header <> EmptyString) as Hne by (intros ->; discriminate).
  rewrite (check_signature_parts secret body header Hne).
  apply split_first_Some in Hsplit as (_ & _ & _ & ->).
  rewrite (split_no_sep _ _ Hd). unfold check_digest.
  by rewrite (proj2 (String.eqb_neq _ _) Halg).
Qed.

Lemma check_signature_unsupported_witness :
  check_signature topsecret
    (Some "md5=47d37ea13f2a17fdad702f6a5b644a06ae077300"%string) zen
  = Raise (UnsupportedDigest "md5").
Proof.
  exact (check_signature_unsupported topsecret zen
           "md5=47d37ea13f2a17fdad702f6a5b644a06ae077300" "md5"
           "47d37ea13f2a17fdad702f6a5b644a06ae077300"
           eq_refl eq_refl ltac:(discriminate))%string.
Defined.

(** C6 as stated fails: the part of ["md5=ab=cd"] before the separator is
    ["md5"], not ["sha1"], yet the failure is the one of the unpacking, not
    the unsupported-algorithm error carrying ["md5"]. *)
Lemma other_algorithm_two_separators :
  split_first "=" "md5=ab=cd" = Some ("md5", "ab=cd")%string
  /\ "md5"%string <> "sha1"%string
  /\ check_signature topsecret (Some "md5=ab=cd"%string) zen
     = Raise (UnpackError 3)
  /\ check_signature topsecret (Some "md5=ab=cd"%string) zen
     <> Raise (UnsupportedDigest "md5").
Proof. repeat split; try reflexivity; discriminate. Qed.

(** C7: for every secret and body and every position of the valid digest,
    replacing the character at that position with any different hexadecimal
    character makes [check_signature] fail with the mismatch error. *)
Theorem check_signature_flipped (secret body : list byte) (i : nat) (c : ascii) :
  i < String.length (Hmac.hexdigest secret body) ->
  is_hex_char c = true ->
  String.get i (Hmac.hexdigest secret body) <> Some c ->
  check_signature secret
    (Some ("sha1=" +:+ set_char i c (Hmac.hexdigest secret body))%string) body
  = Raise DigestMismatch.
Proof.
  intros Hi Hc Hget. apply check_signature_wrong_hex.
  - apply set_char_all_chars; [done | apply hexdigest_hex_chars].
  - by apply set_char_changes.
Qed.

Lemma check_signature_flipped_witness :
  check_signature topsecret
    (Some ("sha1=" +:+ set_char 39 "1" (Hmac.hexdigest topsecret zen))%string) zen
  = Raise DigestMismatch.
Proof.
  apply (check_signature_flipped topsecret zen 39 "1").
  - rewrite hexdigest_length. lia.
  - reflexivity.
  - vm_compute. discriminate.
Defined.

(** C10: the comparison is case-sensitive.  The computed digest is all
    lowercase, and for every secret and body a presented digest that is the
    correct one in any other casing (equal to it after case folding, but not
    equal to it) fails with the mismatch error. *)
Theorem check_signature_case_sensitive (secret body : list byte)
    (presented : string) :
  lower presented = Hmac.hexdigest secret body ->
  presented <> Hmac.hexdigest secret body ->
  lower (Hmac.hexdigest secret body) = Hmac.hexdigest secret body
  /\ check_signature secret (Some ("sha1=" +:+ presented)%string) body
     = Raise DigestMismatch.
Proof.
  intros Hlow Hne. split; [apply hexdigest_lower|].
  apply check_signature_wrong_hex; [|done].
  apply (lower_hex_chars presented (Hmac.hexdigest secret body));
    [apply hex_lower_hex | done].
Qed.

Lemma check_signature_case_sensitive_witness :
  lower (Hmac.hexdigest topsecret zen) = Hmac.hexdigest topsecret zen
  /\ check_signature topsecret
       (Some ("sha1=" +:+ upper (Hmac.hexdigest topsecret zen))%string) zen
     = Raise DigestMismatch.
Proof.
  apply (check_signature_case_sensitive topsecret zen
           (upper (Hmac.hexdigest topsecret zen))).
  - vm_compute. reflexivity.
  - vm_compute. discriminate.
Defined.

(** ** The dispatcher *)

Section DispatcherFacts.
Context {World Exn : Type}.
Implicit Types (g : Globals World Exn) (request : Request).
Implicit Types (functions pre post : list (Handler World Exn)).
Implicit Types (m : gmap string (list (Handler World Exn))).

Lemma defaultdict_getitem_fst m key :
  fst (defaultdict_getitem m key) = functions_of m key.
Proof. unfold defaultdict_getitem, functions_of. by destruct (m !! key). Qed.

Lemma defaultdict_getitem_snd m key :
  snd (defaultdict_getitem m key)
  = match m !! key with Some _ => m | None => <[key := []]> m end.
Proof. unfold defaultdict_getitem. by destruct (m !! key). Qed.

(** [process] in terms of what its loop yields. *)
Lemma process_run request g fs w r :
  call_functions (functions_of (_web_hook_event_map g) (event_of request))
                 (get_json request) (world g) = (fs, w, r) ->
  process request g =
    {| globals :=
         {| _web_hook_event_map :=
              snd (defaultdict_getitem (_web_hook_event_map g) (event_of request));
            logged := logged g ++ [("Event: " +:+ event_of request)%string];
            world := w |};
       called := fs;
       outcome := match r with Some o => o | None => Return status_OK end |}.
Proof.
  intros Hrun. unfold process. fold (event_of request).
  rewrite <- defaultdict_getitem_fst in Hrun.
  destruct (defaultdict_getitem _ _) as [functions m']. simpl in *.
  by rewrite Hrun.
Qed.

Lemma call_functions_all_None functions data w :
  all_return_None functions data w = true ->
  call_functions functions data w
  = (functions, world_after functions data w, None).
Proof.
  revert w. induction functions as [|function rest IH]; simpl; intros w; [done|].
  destruct (function data w) as [w1 r] eqn:Hcall. simpl.
  rewrite andb_true_iff. intros [Hr Hrest].
  destruct r as [[]|]; try done. by rewrite (IH w1 Hrest).
Qed.

Lemma call_functions_first_result pre function post data w w2 v :
  all_return_None pre data w = true ->
  function data (world_after pre data w) = (w2, Return v) ->
  v <> PyNone ->
  call_functions (pre ++ function :: post) data w
  = (pre ++ [function], w2, Some (Return v)).
Proof.
  revert w. induction pre as [|p pre IH]; simpl; intros w.
  - intros _ -> Hv. by destruct v.
  - destruct (p data w) as [w1 r] eqn:Hcall. simpl.
    rewrite andb_true_iff. intros [Hr Hpre] Hf Hv.
    destruct r as [[]|]; try done. by rewrite (IH w1 Hpre Hf Hv).
Qed.

(** The loop stops at the first function whose call does not return
    [None], be it by a value or by an exception. *)
Lemma call_functions_stops pre function post data w w2 result :
  all_return_None pre data w = true ->
  function data (world_after pre data w) = (w2, result) ->
  is_None_return result = false ->
  call_functions (pre ++ function :: post) data w
  = (pre ++ [function], w2, Some result).
Proof.
  revert w. induction pre as [|p pre IH]; simpl; intros w.
  - intros _ -> Hres. by destruct result as [[]|].
  - destruct (p data w) as [w1 r] eqn:Hcall. simpl.
    rewrite andb_true_iff. intros [Hr Hpre] Hf Hres.
    destruct r as [[]|]; try done. by rewrite (IH w1 Hpre Hf Hres).
Qed.

(** The functions called are an initial segment of the registered list:
    they are called in registration order, none skipped, none twice. *)
Lemma call_functions_prefix functions data w :
  fst (fst (call_functions functions data w)) `prefix_of` functions.
Proof.
  revert w. induction functions as [|function rest IH]; simpl; intros w; [done|].
  destruct (function data w) as [w1 [v|e]].
  - specialize (IH w1). destruct (call_functions rest data w1) as [[fs w2] r].
    destruct v; simpl in *;
      try (apply prefix_cons, prefix_nil); by apply prefix_cons.
  - apply prefix_cons, prefix_nil.
Qed.

Lemma process_called_prefix request g :
  called (process request g)
  `prefix_of` functions_of (_web_hook_event_map g) (event_of request).
Proof.
  pose proof (call_functions_prefix
    (functions_of (_web_hook_event_map g) (event_of request))
    (get_json request) (world g)) as Hpre.
  destruct (call_functions _ _ _) as [[fs w] r] eqn:Hrun.
  by rewrite (process_run _ _ _ _ _ Hrun).
Qed.

(** [listen] appends to the list under its event and touches no other. *)
Lemma listen_lookup event (f : Handler World Exn) g key :
  functions_of (_web_hook_event_map (fst (listen event f g))) key
  = if decide (key = event)
    then functions_of (_web_hook_event_map g) event ++ [f]
    else functions_of (_web_hook_event_map g) key.
Proof.
  unfold listen, functions_of, defaultdict_getitem.
  destruct (_web_hook_event_map g !! event) eqn:Hm; simpl;
    case_decide; simplify_map_eq; done.
Qed.

End DispatcherFacts.

Section DispatcherClaims.
Context {World Exn : Type}.
Implicit Types (g : Globals World Exn) (request : Request).
Implicit Types (pre post : list (Handler World Exn)).

(** C4: [process] calls the functions registered for the event in
    registration order, and as soon as one returns a value other than [None]
    it returns that value and calls no later function.  With the registered
    list [pre ++ function :: post], every function of [pre] returning [None]
    and [function] returning [v], the run calls exactly [pre] followed by
    [function], its outcome is [v], and the world is the one [function]
    left: nothing of [post] has run. *)
Theorem process_first_result request g pre (function : Handler World Exn)
    post (w2 : World) (v : PyValue) :
  _web_hook_event_map g !! event_of request = Some (pre ++ function :: post) ->
  all_return_None pre (get_json request) (world g) = true ->
  function (get_json request) (world_after pre (get_json request) (world g))
  = (w2, Return v) ->
  v <> PyNone ->
  process request g =
    {| globals :=
         {| _web_hook_event_map := _web_hook_event_map g;
            logged := logged g ++ [("Event: " +:+ event_of request)%string];
            world := w2 |};
       called := pre ++ [function];
       outcome := Return v |}.
Proof.
  intros Hm Hpre Hf Hv.
  rewrite (process_run request g (pre ++ [function]) w2 (Some (Return v))).
  - by rewrite defaultdict_getitem_snd, Hm.
  - unfold functions_of. rewrite Hm. simpl.
    by apply call_functions_first_result.
Qed.

(** C5, as the code has it: [process] leaves the list read under every key
    unchanged, a key without an entry reading as the empty list, and removes
    no key.  When the event name has an entry the mapping is the same
    before and after; when it has none, the lookup of the [defaultdict]
    binds that one name to an empty list. *)
Theorem process_event_map request g :
  let m := _web_hook_event_map g in
  let m' := _web_hook_event_map (globals (process request g)) in
  (forall key, functions_of m' key = functions_of m key)
  /\ dom m ⊆ dom m'
  /\ (is_Some (m !! event_of request) -> m' = m)
  /\ (m !! event_of request = None -> m' = <[event_of request := []]> m).
Proof.
  destruct (call_functions
    (functions_of (_web_hook_event_map g) (event_of request))
    (get_json request) (world g)) as [[fs w] r] eqn:Hrun.
  rewrite (process_run _ _ _ _ _ Hrun). simpl.
  rewrite defaultdict_getitem_snd.
  destruct (_web_hook_event_map g !! event_of request) as [functions|] eqn:Hm.
  - split; [done|]. split; [done|]. split; [done|]. discriminate.
  - split; [|split; [|split]].
    + intros key. unfold functions_of.
      destruct (decide (key = event_of request)) as [->|Hne].
      * by rewrite lookup_insert_eq, Hm.
      * by rewrite lookup_insert_ne.
    + rewrite dom_insert_L. set_solver.
    + by intros [? ?].
    + done.
Qed.

(** C8: if no function is registered for the event name, or every
    registered function returns [None], [process] returns the default
    acknowledgement [{'status': 'OK'}]. *)
Theorem process_default request g :
  _web_hook_event_map g !! event_of request = None
  \/ all_return_None (functions_of (_web_hook_event_map g) (event_of request))
                     (get_json request) (world g) = true ->
  outcome (process request g) = Return status_OK.
Proof.
  intros H.
  assert (all_return_None
            (functions_of (_web_hook_event_map g) (event_of request))
            (get_json request) (world g) = true) as Hall.
  { destruct H as [Hm|H]; [|done]. unfold functions_of. by rewrite Hm. }
  by rewrite (process_run _ _ _ _ _ (call_functions_all_None _ _ _ Hall)).
Qed.

(** C9: when the request has no X-GitHub-Event header, [process] behaves
    as if the event name were ["ping"].  It does exactly what it does on the
    same request with the header set to ["ping"], it logs the event
    ["ping"], and it looks up and calls the functions registered under
    ["ping"], in their order: when they all return [None] it calls every one
    of them and returns the default acknowledgement; when one of them returns
    a value other than [None], or raises, after those before it returned
    [None], it calls the functions up to that one and ends with that
    result. *)
Theorem process_absent_event request g :
  headers request !! "X-GitHub-Event"%string = None ->
  let ping := functions_of (_web_hook_event_map g) "ping" in
  let data := get_json request in
  process request g
  = process {| headers := <["X-GitHub-Event"%string := "ping"%string]>
                            (headers request);
               get_json := get_json request |} g
  /\ called (process request g) `prefix_of` ping
  /\ logged (globals (process request g))
     = logged g ++ ["Event: ping"%string]
  /\ (all_return_None ping data (world g) = true ->
      called (process request g) = ping
      /\ outcome (process request g) = Return status_OK
      /\ world (globals (process request g)) = world_after ping data (world g))
  /\ (forall pre (function : Handler World Exn) post (w2 : World) result,
        ping = pre ++ function :: post ->
        all_return_None pre data (world g) = true ->
        function data (world_after pre data (world g)) = (w2, result) ->
        is_None_return result = false ->
        called (process request g) = pre ++ [function]
        /\ outcome (process request g) = result
        /\ world (globals (process request g)) = w2).
Proof.
  intros Habsent ping data.
  assert (event_of request = "ping"%string) as Hev
    by (unfold event_of; by rewrite Habsent).
  split; [|split; [|split; [|split]]].
  - unfold process. simpl. by rewrite lookup_insert_eq, Habsent.
  - subst ping. rewrite <- Hev. apply process_called_prefix.
  - destruct (call_functions
      (functions_of (_web_hook_event_map g) (event_of request))
      (get_json request) (world g)) as [[fs w] r] eqn:Hrun.
    rewrite (process_run _ _ _ _ _ Hrun). simpl. by rewrite Hev.
  - intros Hall. apply call_functions_all_None in Hall.
    subst ping data. rewrite <- Hev in Hall.
    rewrite (process_run _ _ _ _ _ Hall). simpl. by rewrite Hev.
  - intros pre function post w2 result Hping Hpre Hcall Hres.
    pose proof (call_functions_stops pre function post _ _ _ _ Hpre Hcall Hres)
      as Hrun.
    rewrite (process_run request g (pre ++ [function]) w2 (Some result));
      [done|].
    rewrite Hev. unfold ping in Hping. rewrite Hping. exact Hrun.
Qed.

End DispatcherClaims.

Lemma process_first_result_witness :
  process (Scenario.request_for "push") Scenario.registered =
    {| globals :=
         {| _web_hook_event_map := _web_hook_event_map Scenario.registered;
            logged := ["Event: push"%string];
            world := 11 |};
       called := [Scenario.h1; Scenario.h2];
       outcome := Return (PyDict [("x"%string, PyInt 1)]) |}.
Proof.
  apply (process_first_result (Scenario.request_for "push") Scenario.registered
           [Scenario.h1] Scenario.h2 [Scenario.h3] 11
           (PyDict [("x"%string, PyInt 1)])).
  - vm_compute. reflexivity.
  - reflexivity.
  - reflexivity.
  - discriminate.
Defined.

(** C5 as stated fails: on a request for an event no function was ever
    registered for, [process] adds that event name to the keys. *)
Lemma process_adds_unknown_event :
  _web_hook_event_map Scenario.registered !! "unknown_event"%string = None
  /\ _web_hook_event_map
       (globals (process (Scenario.request_for "unknown_event")
                         Scenario.registered))
     !! "unknown_event"%string = Some []
  /\ dom (_web_hook_event_map
            (globals (process (Scenario.request_for "unknown_event")
                              Scenario.registered)))
     <> dom (_web_hook_event_map Scenario.registered).
Proof.
  assert (_web_hook_event_map Scenario.registered !! "unknown_event"%string
          = None) as Hbefore by (vm_compute; reflexivity).
  assert (_web_hook_event_map
            (globals (process (Scenario.request_for "unknown_event")
                              Scenario.registered))
          !! "unknown_event"%string = Some []) as Hafter
    by (vm_compute; reflexivity).
  split; [exact Hbefore|]. split; [exact Hafter|].
  intros Hdom. apply not_elem_of_dom in Hbefore.
  apply Hbefore. rewrite <- Hdom. apply elem_of_dom. by rewrite Hafter.
Qed.

Lemma process_default_witness :
  outcome (process (Scenario.request_for "unknown_event") Scenario.registered)
  = Return status_OK
  /\ outcome (process (Scenario.request_for "ping") Scenario.registered)
     = Return status_OK.
Proof.
  split.
  - apply (process_default (Scenario.request_for "unknown_event")
             Scenario.registered).
    left. vm_compute. reflexivity.
  - apply (process_default (Scenario.request_for "ping") Scenario.registered).
    right. vm_compute. reflexivity.
Defined.

Lemma process_absent_event_witness :
  (process Scenario.request_without_event Scenario.registered
   = process {| headers := <["X-GitHub-Event"%string := "ping"%string]> ∅;
                get_json := Scenario.payload |} Scenario.registered
   /\ called (process Scenario.request_without_event Scenario.registered)
      = [Scenario.h1]
   /\ outcome (process Scenario.request_without_event Scenario.registered)
      = Return status_OK
   /\ world (globals (process Scenario.request_without_event
                              Scenario.registered)) = 1)
  /\ (called (process Scenario.request_without_event
                (fst (listen "ping" Scenario.h2 Scenario.registered)))
      = [Scenario.h1; Scenario.h2]
      /\ outcome (process Scenario.request_without_event
                    (fst (listen "ping" Scenario.h2 Scenario.registered)))
         = Return (PyDict [("x"%string, PyInt 1)])
      /\ world (globals (process Scenario.request_without_event
                    (fst (listen "ping" Scenario.h2 Scenario.registered))))
         = 11).
Proof.
  split.
  - destruct (process_absent_event Scenario.request_without_event
                Scenario.registered eq_refl) as (Hsame & _ & _ & Hall & _).
    split; [exact Hsame|]. apply Hall. reflexivity.
  - destruct (process_absent_event Scenario.request_without_event
                (fst (listen "ping" Scenario.h2 Scenario.registered)) eq_refl)
      as (_ & _ & _ & _ & Hstop).
    apply (Hstop [Scenario.h1] Scenario.h2 [] 11
                 (Return (PyDict [("x"%string, PyInt 1)])));
      reflexivity.
Defined.

(** ** check_signature: which outcome for which header *)

Lemma split_two (sep : ascii) (s a d : string) :
  split sep s = [a; d] ->
  s = (a +:+ String sep d)%string
  /\ count_char sep a = 0 /\ count_char sep d = 0.
Proof.
  destruct (split_first sep s) as [[b r]|] eqn:Hfirst.
  - apply split_first_Some in Hfirst as (Hs & Hb & _ & Hsplit).
    rewrite Hsplit. intros [= -> Hr].
    assert (count_char sep r = 0) as Hcount.
    { pose proof (split_length sep r) as Hlen. rewrite Hr in Hlen.
      simpl in Hlen. lia. }
    rewrite (split_no_sep _ _ Hcount) in Hr. injection Hr as ->. done.
  - apply split_first_None in Hfirst. rewrite (split_no_sep _ _ Hfirst).
    discriminate.
Qed.

(** The three tests of lines 35-44, in the order the code makes them. *)
Lemma check_digest_cases (secret body : list byte) (algorithm d : string) :
  check_digest secret algorithm d body =
    if negb (String.eqb algorithm "sha1") then Raise (UnsupportedDigest algorithm)
    else if negb (is_ascii d) then Raise NonAsciiTypeError
    else if String.eqb (Hmac.hexdigest secret body) d then Return true
    else Raise DigestMismatch.
Proof.
  unfold check_digest. destruct (negb (String.eqb algorithm "sha1")); [done|].
  cbv zeta. destruct (is_ascii d) eqn:Hd.
  - rewrite compare_digest_ascii;
      [| apply hex_chars_ascii, hexdigest_hex_chars | exact Hd].
    cbv [negb]. by destruct (String.eqb (Hmac.hexdigest secret body) d).
  - unfold compare_digest. by rewrite Hd, andb_false_r.
Qed.

Lemma check_signature_cases (secret body : list byte) (header : option string) :
  check_signature secret header body =
    match header with
    | None => Raise NoHeader
    | Some EmptyString => Raise NoHeader
    | Some h =>
        match split "=" h with
        | [algorithm; d] =>
            if negb (String.eqb algorithm "sha1")
            then Raise (UnsupportedDigest algorithm)
            else if negb (is_ascii d) then Raise NonAsciiTypeError
            else if String.eqb (Hmac.hexdigest secret body) d then Return true
            else Raise DigestMismatch
        | parts => Raise (UnpackError (length parts))
        end
    end.
Proof.
  destruct header as [[|c h]|]; try done.
  rewrite check_signature_parts by done.
  destruct (split "=" (String c h)) as [|a [|d [|x l]]]; try done.
  apply check_digest_cases.
Qed.

(** Case analysis on a non-empty header along the tests of the code. *)
Ltac header_cases secret body c h :=
  rewrite (check_signature_cases secret body (Some (String c h)));
  let a := fresh "a" in let d := fresh "d" in let Hs := fresh "Hsplit" in
  destruct (split "=" (String c h)) as [|a [|d [|? ?]]] eqn:Hs;
  [ | | apply split_two in Hs as (Hs & ? & ?);
        destruct (String.eqb_spec a "sha1");
        [ destruct (is_ascii d) eqn:?;
          [ destruct (String.eqb_spec (Hmac.hexdigest secret body) d) | ] | ]
    | ]; cbv [negb].

(** X1: [check_signature] raises the no-header error exactly when the
    header is absent or empty; no header with content is reported as
    missing. *)
Theorem check_signature_no_header_iff (secret body : list byte)
    (header : option string) :
  check_signature secret header body = Raise NoHeader
  <-> header = None \/ header = Some EmptyString.
Proof.
  split.
  - destruct header as [[|c h]|]; [by right | | by left].
    header_cases secret body c h; discriminate.
  - by intros [-> | ->].
Qed.

(** X2: [check_signature] returns [True] for exactly one header, ["sha1="]
    followed by the hexadecimal HMAC-SHA1 of the body under the secret. *)
Theorem check_signature_accepts_iff (secret body : list byte)
    (header : option string) :
  check_signature secret header body = Return true
  <-> header = Some ("sha1=" +:+ Hmac.hexdigest secret body)%string.
Proof.
  split.
  - destruct header as [[|c h]|]; try done.
    header_cases secret body c h; try discriminate.
    intros _. subst. by f_equal.
  - intros ->. pose proof (hexdigest_hex_chars secret body) as Hhex.
    change ("sha1=" +:+ Hmac.hexdigest secret body)%string
      with ("sha1" +:+ String "=" (Hmac.hexdigest secret body))%string.
    rewrite check_signature_one_separator; [|done|by apply hex_chars_no_sep].
    rewrite check_digest_sha1 by by apply hex_chars_ascii.
    by rewrite String.eqb_refl.
Qed.

(** X3: [check_signature] never returns [False]: it returns [True] or
    raises. *)
Theorem check_signature_never_False (secret body : list byte)
    (header : option string) :
  check_signature secret header body = Return true
  \/ exists e, check_signature secret header body = Raise e.
Proof.
  destruct header as [[|c h]|]; [right; by eexists | | right; by eexists].
  header_cases secret body c h; (by left) || (right; by eexists).
Qed.

(** X4: the mismatch error is raised exactly for the headers ["sha1=" + d]
    where [d] is ASCII text without ['='] that differs from the computed
    digest, whatever its length. *)
Theorem check_signature_mismatch_iff (secret body : list byte)
    (header : option string) :
  check_signature secret header body = Raise DigestMismatch
  <-> exists d, header = Some ("sha1=" +:+ d)%string
                /\ count_char "=" d = 0 /\ is_ascii d = true
                /\ d <> Hmac.hexdigest secret body.
Proof.
  split.
  - destruct header as [[|c h]|]; try done.
    header_cases secret body c h; try discriminate.
    intros _. subst. exists d. rewrite Hsplit.
    split; [reflexivity|]. split; [assumption|]. split; [assumption|].
    congruence.
  - intros (d & -> & Hsep & Hascii & Hne).
    change ("sha1=" +:+ d)%string with ("sha1" +:+ String "=" d)%string.
    rewrite check_signature_one_separator by done.
    rewrite check_digest_sha1 by done.
    destruct (String.eqb_spec (Hmac.hexdigest secret body) d); congruence.
Qed.

(** X5: a header ["sha1=" + d] whose digest part holds a non-ASCII
    character makes [hmac.compare_digest] raise a [TypeError], and these are
    the only headers for which [check_signature] raises something other than
    a [ValueError]. *)
Theorem check_signature_type_error_iff (secret body : list byte)
    (header : option string) :
  check_signature secret header body = Raise NonAsciiTypeError
  <-> exists d, header = Some ("sha1=" +:+ d)%string
                /\ count_char "=" d = 0 /\ is_ascii d = false.
Proof.
  split.
  - destruct header as [[|c h]|]; try done.
    header_cases secret body c h; try discriminate.
    intros _. subst. exists d. rewrite Hsplit.
    split; [reflexivity|]. split; assumption.
  - intros (d & -> & Hsep & Hascii).
    change ("sha1=" +:+ d)%string with ("sha1" +:+ String "=" d)%string.
    rewrite check_signature_one_separator by done.
    rewrite check_digest_cases. cbv [String.eqb Ascii.eqb Bool.eqb negb].
    by rewrite Hascii.
Qed.

(** X6: the digest computed at lines 38-39 is always 40 characters, each one
    of [0-9a-f]. *)
Theorem body_digest_format (secret body : list byte) :
  String.length (Hmac.hexdigest secret body) = 40
  /\ all_chars is_lower_hex (Hmac.hexdigest secret body) = true.
Proof. split; [apply hexdigest_length | apply hex_lower_hex]. Qed.

(** ** listen and process together *)

Section DispatcherMore.
Context {World Exn : Type}.
Implicit Types (g : Globals World Exn) (request : Request).
Implicit Types (functions pre post : list (Handler World Exn)).

(** Once the functions of [pre] have all returned [None], the loop goes on
    with the rest of the list from the world they left. *)
Lemma call_functions_app pre post data (w : World) :
  all_return_None pre data w = true ->
  call_functions (pre ++ post) data w =
    let '(fs, w', r) := call_functions post data (world_after pre data w) in
    (pre ++ fs, w', r).
Proof.
  revert w. induction pre as [|p pre IH]; simpl; intros w.
  - intros _. by destruct (call_functions post data w) as [[fs w'] r].
  - destruct (p data w) as [w1 r] eqn:Hcall. simpl.
    rewrite andb_true_iff. intros [Hr Hpre].
    destruct r as [[]|]; try done. rewrite (IH w1 Hpre).
    by destruct (call_functions post data (world_after pre data w1))
      as [[fs w'] r'].
Qed.

Lemma call_functions_called functions data (w : World) :
  all_return_None (removelast (fst (fst (call_functions functions data w))))
                  data w = true
  /\ (functions <> [] -> fst (fst (call_functions functions data w)) <> []).
Proof.
  revert w. induction functions as [|function rest IH]; simpl; intros w; [done|].
  destruct (function data w) as [w1 r] eqn:Hcall.
  destruct r as [v|e]; [|done].
  destruct (IH w1) as [Hnone _].
  destruct (call_functions rest data w1) as [[fs w2] r].
  destruct v; try done. simpl in *. split; [|done].
  destruct fs as [|f0 fs]; [done|].
  change (all_return_None (function :: removelast (f0 :: fs)) data w = true).
  simpl. rewrite Hcall. simpl. exact Hnone.
Qed.

(** X7: registering functions for an event one after the other appends them
    to that event's list in the order of registration, keeping what was
    registered before and any duplicates; the lists of all other events, the
    world and the log are left as they were. *)
Theorem listen_all_appends (event : string) functions g (key : string) :
  functions_of (_web_hook_event_map (listen_all event functions g)) key
  = (if decide (key = event)
     then functions_of (_web_hook_event_map g) event ++ functions
     else functions_of (_web_hook_event_map g) key)
  /\ world (listen_all event functions g) = world g
  /\ logged (listen_all event functions g) = logged g.
Proof.
  revert g. induction functions as [|f fs IH]; intros g.
  - simpl. rewrite app_nil_r. by case_decide; subst.
  - change (listen_all event (f :: fs) g)
      with (listen_all event fs (fst (listen event f g))).
    destruct (IH (fst (listen event f g))) as (-> & -> & ->).
    rewrite !listen_lookup. split; [|by unfold listen; destruct defaultdict_getitem].
    case_decide; [|done]. rewrite decide_True by done. by rewrite <- app_assoc.
Qed.

(** X8: an exception raised by a hook function is not caught.  With the
    registered list [pre ++ function :: post], every function of [pre]
    returning [None] and [function] raising [e], [process] raises [e] after
    calling exactly [pre] and [function]; nothing of [post] runs. *)
Theorem process_raise_propagates request g pre (function : Handler World Exn)
    post (w2 : World) (e : Exn) :
  _web_hook_event_map g !! event_of request = Some (pre ++ function :: post) ->
  all_return_None pre (get_json request) (world g) = true ->
  function (get_json request) (world_after pre (get_json request) (world g))
  = (w2, Raise e) ->
  process request g =
    {| globals :=
         {| _web_hook_event_map := _web_hook_event_map g;
            logged := logged g ++ [("Event: " +:+ event_of request)%string];
            world := w2 |};
       called := pre ++ [function];
       outcome := Raise e |}.
Proof.
  intros Hm Hpre Hf.
  rewrite (process_run request g (pre ++ [function]) w2 (Some (Raise e))).
  - by rewrite defaultdict_getitem_snd, Hm.
  - unfold functions_of. rewrite Hm. simpl.
    rewrite (call_functions_app pre _ _ _ Hpre). simpl. by rewrite Hf.
Qed.

Lemma call_functions_uncalled pre rest1 rest2 data (w : World) :
  fst (fst (call_functions (pre ++ rest1) data w)) = pre ->
  rest1 <> [] ->
  call_functions (pre ++ rest2) data w = call_functions (pre ++ rest1) data w.
Proof.
  revert w. induction pre as [|p pre IH]; intros w Hcalled Hne.
  - by destruct (call_functions_called rest1 data w) as [_ []].
  - simpl in *. destruct (p data w) as [w1 [v|e]]; [|done].
    specialize (IH w1).
    destruct (call_functions (pre ++ rest1) data w1) as [[fs w2] r].
    destruct v; try done. simpl in *. injection Hcalled as ->.
    by rewrite (IH eq_refl Hne).
Qed.

(** X9: a registered function that [process] did not call has had no
    effect.  When a run called only the functions [pre] of a longer
    registered list, a run on the same list with the functions after [pre]
    replaced by any others, from the same world, calls the same functions
    and ends with the same outcome and the same world. *)
Theorem process_uncalled_irrelevant request g1 g2 pre rest1 rest2 :
  functions_of (_web_hook_event_map g1) (event_of request) = pre ++ rest1 ->
  functions_of (_web_hook_event_map g2) (event_of request) = pre ++ rest2 ->
  world g1 = world g2 ->
  called (process request g1) = pre ->
  rest1 <> [] ->
  called (process request g2) = pre
  /\ outcome (process request g2) = outcome (process request g1)
  /\ world (globals (process request g2)) = world (globals (process request g1)).
Proof.
  intros Hlist1 Hlist2 Hworld Hcalled Hne.
  destruct (call_functions
    (functions_of (_web_hook_event_map g1) (event_of request))
    (get_json request) (world g1)) as [[fs w] r] eqn:Hrun1.
  rewrite (process_run _ _ _ _ _ Hrun1) in Hcalled |- *.
  simpl in Hcalled. subst fs. rewrite Hlist1 in Hrun1.
  assert (call_functions (pre ++ rest2) (get_json request) (world g1)
          = (pre, w, r)) as Hrun2.
  { rewrite (call_functions_uncalled pre rest1 rest2); [done| |done].
    by rewrite Hrun1. }
  rewrite <- Hlist2, Hworld in Hrun2.
  by rewrite (process_run _ _ _ _ _ Hrun2).
Qed.

(** X10: in every run, the functions [process] calls are an initial segment
    of the list registered for the event, every called function but the
    last has returned [None], and when the list is not empty its first
    function is called. *)
Theorem process_called_shape request g :
  let functions := functions_of (_web_hook_event_map g) (event_of request) in
  called (process request g) `prefix_of` functions
  /\ all_return_None (removelast (called (process request g)))
                     (get_json request) (world g) = true
  /\ (functions <> [] -> called (process request g) <> []).
Proof.
  intros functions. subst functions.
  pose proof (call_functions_prefix
    (functions_of (_web_hook_event_map g) (event_of request))
    (get_json request) (world g)) as Hpre.
  pose proof (call_functions_called
    (functions_of (_web_hook_event_map g) (event_of request))
    (get_json request) (world g)) as [Hnone Hfirst].
  destruct (call_functions _ _ _) as [[fs w] r] eqn:Hrun.
  by rewrite (process_run _ _ _ _ _ Hrun).
Qed.

Lemma process_lookup request g (key : string) :
  functions_of (_web_hook_event_map (globals (process request g))) key
  = functions_of (_web_hook_event_map g) key.
Proof.
  destruct (call_functions
    (functions_of (_web_hook_event_map g) (event_of request))
    (get_json request) (world g)) as [[fs w] r] eqn:Hrun.
  rewrite (process_run _ _ _ _ _ Hrun). simpl.
  rewrite defaultdict_getitem_snd. unfold functions_of.
  destruct (_web_hook_event_map g !! event_of request) eqn:Hm; [done|].
  destruct (decide (key = event_of request)) as [->|Hne].
  - by rewrite lookup_insert_eq, Hm.
  - by rewrite lookup_insert_ne.
Qed.

Lemma process_dom request g :
  dom (_web_hook_event_map (globals (process request g)))
  = dom (_web_hook_event_map g) ∪ {[event_of request]}.
Proof.
  destruct (call_functions
    (functions_of (_web_hook_event_map g) (event_of request))
    (get_json request) (world g)) as [[fs w] r] eqn:Hrun.
  rewrite (process_run _ _ _ _ _ Hrun). simpl.
  rewrite defaultdict_getitem_snd.
  destruct (_web_hook_event_map g !! event_of request) eqn:Hm.
  - apply (elem_of_dom_2 (D := gset string)) in Hm.
    rewrite (union_comm_L (dom (_web_hook_event_map g))).
    symmetry. by apply subseteq_union_1_L, singleton_subseteq_l.
  - by rewrite dom_insert_L, union_comm_L.
Qed.

(** X11: after any sequence of requests, whatever the hook functions
    returned or raised, the list read under every event is the one
    registration put there, and the keys of the event map are its keys
    before the requests together with the event names the requests
    carried. *)
Theorem serve_event_map (requests : list Request) g :
  (forall key,
     functions_of (_web_hook_event_map (serve requests g)) key
     = functions_of (_web_hook_event_map g) key)
  /\ dom (_web_hook_event_map (serve requests g))
     = dom (_web_hook_event_map g) ∪ list_to_set (event_of <$> requests).
Proof.
  revert g. induction requests as [|request rest IH]; intros g.
  - split; [done|]. simpl. by rewrite union_empty_r_L.
  - change (serve (request :: rest) g)
      with (serve rest (globals (process request g))).
    destruct (IH (globals (process request g))) as [Hlists Hdom]. split.
    + intros key. by rewrite Hlists, process_lookup.
    + rewrite Hdom, process_dom. simpl. by rewrite (assoc_L (∪)).
Qed.

(** X12: a registration made after any sequence of requests gives the same
    lists as the same registration made before them: the empty entries the
    lookups create do not disturb [listen]. *)
Theorem listen_after_serve (requests : list Request) (event : string)
    (f : Handler World Exn) g (key : string) :
  functions_of (_web_hook_event_map (fst (listen event f (serve requests g)))) key
  = functions_of (_web_hook_event_map (fst (listen event f g))) key.
Proof.
  rewrite !listen_lookup.
  destruct (serve_event_map requests g) as [Hlists _].
  by rewrite !Hlists.
Qed.

Lemma process_same_list request g1 g2 :
  functions_of (_web_hook_event_map g1) (event_of request)
  = functions_of (_web_hook_event_map g2) (event_of request) ->
  world g1 = world g2 ->
  called (process request g1) = called (process request g2)
  /\ outcome (process request g1) = outcome (process request g2)
  /\ world (globals (process request g1)) = world (globals (process request g2)).
Proof.
  intros Hlist Hworld.
  destruct (call_functions
    (functions_of (_web_hook_event_map g1) (event_of request))
    (get_json request) (world g1)) as [[fs w] r] eqn:Hrun.
  rewrite (process_run _ _ _ _ _ Hrun).
  rewrite Hlist, Hworld in Hrun.
  by rewrite (process_run _ _ _ _ _ Hrun).
Qed.

(** X13: registering a function for one event does not change how a request
    for another event is dispatched: the same functions are called, with the
    same outcome and the same effect on the world. *)
Theorem process_other_event request g (event : string) (f : Handler World Exn) :
  event <> event_of request ->
  called (process request (fst (listen event f g))) = called (process request g)
  /\ outcome (process request (fst (listen event f g)))
     = outcome (process request g)
  /\ world (globals (process request (fst (listen event f g))))
     = world (globals (process request g)).
Proof.
  intros Hne. apply process_same_list.
  - rewrite listen_lookup. by rewrite decide_False.
  - unfold listen. by destruct defaultdict_getitem.
Qed.

(** X14: a function registered last for an event is reached by a request for
    that event when every function registered before it returns [None]:
    [process] then calls the earlier functions and the new one, and returns
    what the new one returns, or the default acknowledgement if that is
    [None]. *)
Theorem process_after_listen request g (f : Handler World Exn) :
  let earlier := functions_of (_web_hook_event_map g) (event_of request) in
  let w1 := world_after earlier (get_json request) (world g) in
  all_return_None earlier (get_json request) (world g) = true ->
  called (process request (fst (listen (event_of request) f g)))
  = earlier ++ [f]
  /\ outcome (process request (fst (listen (event_of request) f g)))
     = match snd (f (get_json request) w1) with
       | Return PyNone => Return status_OK
       | result => result
       end
  /\ world (globals (process request (fst (listen (event_of request) f g))))
     = fst (f (get_json request) w1).
Proof.
  intros earlier w1 Hnone.
  pose proof (listen_lookup (event_of request) f g (event_of request)) as Hlist.
  rewrite decide_True in Hlist by done. fold earlier in Hlist.
  assert (world (fst (listen (event_of request) f g)) = world g) as Hworld
    by (unfold listen; by destruct defaultdict_getitem).
  pose proof (call_functions_app earlier [f] (get_json request) (world g) Hnone)
    as Hrun.
  fold w1 in Hrun. simpl in Hrun.
  destruct (f (get_json request) w1) as [w2 r] eqn:Hf.
  rewrite <- Hlist, <- Hworld in Hrun.
  destruct r as [v|e].
  - destruct v; rewrite (process_run _ _ _ _ _ Hrun); done.
  - by rewrite (process_run _ _ _ _ _ Hrun).
Qed.

End DispatcherMore.

Lemma process_raise_propagates_witness :
  process (Scenario.request_for "push") Raising.registered =
    {| globals :=
         {| _web_hook_event_map := _web_hook_event_map Raising.registered;
            logged := ["Event: push"%string];
            world := 1001 |};
       called := [Scenario.h1; Raising.boom];
       outcome := Raise tt |}.
Proof.
  apply (process_raise_propagates (Scenario.request_for "push")
           Raising.registered [Scenario.h1] Raising.boom [Scenario.h3] 1001 tt).
  - vm_compute. reflexivity.
  - reflexivity.
  - reflexivity.
Defined.

Lemma process_uncalled_irrelevant_witness :
  called (process (Scenario.request_for "push")
            (listen_all "push" [Scenario.h1; Scenario.h2; Raising.boom]
                        Scenario.nothing))
  = [Scenario.h1; Scenario.h2]
  /\ outcome (process (Scenario.request_for "push")
                (listen_all "push" [Scenario.h1; Scenario.h2; Raising.boom]
                            Scenario.nothing))
     = outcome (process (Scenario.request_for "push") Scenario.registered)
  /\ world (globals (process (Scenario.request_for "push")
                (listen_all "push" [Scenario.h1; Scenario.h2; Raising.boom]
                            Scenario.nothing)))
     = world (globals (process (Scenario.request_for "push")
                               Scenario.registered)).
Proof.
  apply (process_uncalled_irrelevant (Scenario.request_for "push")
           Scenario.registered
           (listen_all "push" [Scenario.h1; Scenario.h2; Raising.boom]
                       Scenario.nothing)
           [Scenario.h1; Scenario.h2] [Scenario.h3] [Raising.boom]).
  - vm_compute. reflexivity.
  - vm_compute. reflexivity.
  - reflexivity.
  - vm_compute. reflexivity.
  - discriminate.
Defined.

Lemma process_other_event_witness :
  called (process (Scenario.request_for "push")
                  (fst (listen "ping" Scenario.h2 Scenario.registered)))
  = called (process (Scenario.request_for "push") Scenario.registered)
  /\ outcome (process (Scenario.request_for "push")
                      (fst (listen "ping" Scenario.h2 Scenario.registered)))
     = outcome (process (Scenario.request_for "push") Scenario.registered)
  /\ world (globals (process (Scenario.request_for "push")
                      (fst (listen "ping" Scenario.h2 Scenario.registered))))
     = world (globals (process (Scenario.request_for "push") Scenario.registered)).
Proof.
  apply (process_other_event (Scenario.request_for "push") Scenario.registered
           "ping" Scenario.h2).
  vm_compute. discriminate.
Defined.

Lemma process_after_listen_witness :
  called (process (Scenario.request_for "ping")
                  (fst (listen "ping" Scenario.h2 Scenario.registered)))
  = [Scenario.h1; Scenario.h2]
  /\ outcome (process (Scenario.request_for "ping")
                      (fst (listen "ping" Scenario.h2 Scenario.registered)))
     = Return (PyDict [("x"%string, PyInt 1)])
  /\ world (globals (process (Scenario.request_for "ping")
                      (fst (listen "ping" Scenario.h2 Scenario.registered))))
     = 11.
Proof.
  apply (process_after_listen (Scenario.request_for "ping") Scenario.registered
           Scenario.h2).
  vm_compute. reflexivity.
Defined.

(** ** check_signature: the failures that come before the comparison *)

(** X15: every failure other than the digest mismatch is decided by the
    header alone: if [check_signature] raises such an error for one secret
    and body, it raises the same error for every secret and body. *)
Theorem check_signature_error_from_header (secret1 body1 secret2 body2 : list byte)
    (header : option string) (e : Exception) :
  check_signature secret1 header body1 = Raise e ->
  e <> DigestMismatch ->
  check_signature secret2 header body2 = Raise e.
Proof.
  rewrite (check_signature_cases secret1 body1 header),
          (check_signature_cases secret2 body2 header).
  destruct header as [[|c h]|]; try done.
  destruct (split "=" (String c h)) as [|a [|d [|x l]]]; try done.
  destruct (negb (String.eqb a "sha1")); [done|].
  destruct (negb (is_ascii d)); [done|].
  destruct (String.eqb (Hmac.hexdigest secret1 body1) d); [discriminate|].
  by intros [= <-].
Qed.

Lemma check_signature_error_from_header_witness :
  check_signature [] (Some "md5=ab"%string) [] = Raise (UnsupportedDigest "md5").
Proof.
  apply (check_signature_error_from_header topsecret zen [] []
           (Some "md5=ab"%string) (UnsupportedDigest "md5")).
  - reflexivity.
  - discriminate.
Defined.

(** X16: the unpacking error is raised exactly for the non-empty headers in
    which the number of ['='] is not one, and it reports one part more than
    there are ['=']. *)
Theorem check_signature_unpack_iff (secret body : list byte)
    (header : option string) (n : nat) :
  check_signature secret header body = Raise (UnpackError n)
  <-> exists h, header = Some h /\ h <> EmptyString
                /\ count_char "=" h <> 1 /\ n = S (count_char "=" h).
Proof.
  rewrite (check_signature_cases secret body header). split.
  - destruct header as [[|c h]|]; try done.
    pose proof (split_length "=" (String c h)) as Hlen.
    destruct (split "=" (String c h)) as [|a [|d [|x l]]]; simpl in Hlen.
    + lia.
    + intros [= <-]. exists (String c h). repeat split; try done; simpl; lia.
    + destruct (negb (String.eqb a "sha1")); [done|].
      destruct (negb (is_ascii d)); [done|].
      by destruct (String.eqb (Hmac.hexdigest secret body) d).
    + intros [= <-]. exists (String c h).
      repeat split; try done; simpl; lia.
  - intros (h & -> & Hne & Hcount & ->).
    destruct h as [|c h]; [done|].
    pose proof (split_length "=" (String c h)) as Hlen.
    destruct (split "=" (String c h)) as [|a [|d [|x l]]];
      cbn [length] in Hlen; try (by rewrite <- Hlen); lia.
Qed.

(** X17: the unsupported-algorithm error carrying [algorithm] is raised
    exactly for the headers with a single ['='] whose part before it is
    [algorithm], a name other than ["sha1"]; names are compared exactly, so
    ["SHA1"] is unsupported. *)
Theorem check_signature_unsupported_iff (secret body : list byte)
    (header : option string) (algorithm : string) :
  check_signature secret header body = Raise (UnsupportedDigest algorithm)
  <-> exists d, header = Some (algorithm +:+ String "=" d)%string
                /\ count_char "=" algorithm = 0 /\ count_char "=" d = 0
                /\ algorithm <> "sha1"%string.
Proof.
  split.
  - destruct header as [[|c h]|]; try done.
    header_cases secret body c h; try discriminate.
    intros [= <-]. exists d. rewrite Hsplit. by repeat split.
  - intros (d & -> & Ha & Hd & Hne).
    rewrite check_signature_one_separator by done.
    rewrite check_digest_cases.
    by rewrite (proj2 (String.eqb_neq _ _) Hne).
Qed.
